(** * A shallow embedding of [src/custom_tts.py]

    The file-based TTS adapter: [TTSStream] (text accumulation, utterance
    queue, lazy frame iteration) and [CustomTTS] (asset decoding, metrics,
    20 ms packetisation, [stop]).

    Modelling conventions.
    - Python strings are ASCII [string]s; [str.strip] and [str.lower] are
      their ASCII behaviour.
    - An int16 sample buffer ([np.ndarray]) is a [list Z] of samples; the
      frame payload [audio_data.tobytes()] is kept as that list of samples.
    - Python generators are explicit generator states with a [next]
      function.  Other tasks (a concurrent [aclose], [push_text], ...) act
      only between two [next] calls of the consumer.
    - [self.emit("metrics_collected", m)] appends [m] to an observable
      [emitted] log of the engine.
    - The WAV file opened by [with wave.open(...)] is counted in a ghost
      field [asset_handles] of the engine. *)

From Stdlib Require Import ZArith List String Ascii Bool QArith Qround Lia.
Import ListNotations.

Module TTS.

Local Open Scope Z_scope.

(** ** Strings: [str.isspace], [str.strip], [str.lower], [in] *)

(** ASCII [str.isspace]: \t \n \v \f \r, \x1c..\x1f and space. *)
Definition is_space (c : ascii) : bool :=
  let n := nat_of_ascii c in
  ((9 <=? n)%nat && (n <=? 13)%nat) || ((28 <=? n)%nat && (n <=? 32)%nat).

Fixpoint lstrip (s : string) : string :=
  match s with
  | EmptyString => EmptyString
  | String c r => if is_space c then lstrip r else s
  end.

Fixpoint rstrip (s : string) : string :=
  match s with
  | EmptyString => EmptyString
  | String c r =>
      let r' := rstrip r in
      if is_space c && String.eqb r' EmptyString then EmptyString
      else String c r'
  end.

(** [str.strip()] *)
Definition strip (s : string) : string := rstrip (lstrip s).

Definition lower_char (c : ascii) : ascii :=
  let n := nat_of_ascii c in
  if (65 <=? n)%nat && (n <=? 90)%nat then ascii_of_nat (n + 32) else c.

(** [str.lower()] *)
Fixpoint lower (s : string) : string :=
  match s with
  | EmptyString => EmptyString
  | String c r => String (lower_char c) (lower r)
  end.

(** [needle in hay] for strings. *)
Fixpoint contains (needle hay : string) : bool :=
  if String.prefix needle hay then true
  else match hay with
       | EmptyString => false
       | String _ r => contains needle r
       end.

(** ** Data *)

(** [TTSMetrics]: [num_chars], [duration_ms], [cost_usd].  The float
    [duration * 1000] is kept as the exact rational. *)
Record TTSMetrics := {
  num_chars : Z;
  duration_ms : Q;
  cost_usd : Q
}.

(** [livekit.rtc.AudioFrame] *)
Record AudioFrame := {
  frame_data : list Z;
  samples_per_channel : Z;
  frame_sample_rate : Z;
  frame_num_channels : Z
}.

(** What [wave.open(audio_file, 'rb')] reads from an existing file. *)
Record wav_file := {
  framerate : Z;          (* getframerate() *)
  nchannels : Z;          (* getnchannels() *)
  nframes : Z;            (* getnframes() *)
  (* np.frombuffer(readframes(nframes), int16); None when it raises *)
  samples : option (list Z)
}.

Inductive wav_open :=
| WavOk (w : wav_file)
| WavBad.               (* wave.open raises (malformed / unsupported) *)

(** Exceptions raised in the body of [synthesize] (all caught). *)
Inductive py_exn :=
| WaveError
| ZeroDivisionError
| DecodeError
| RangeStepZero.

(** State of a [CustomTTS] instance. *)
Record engine := {
  sample_rate : Z;
  num_channels : Z;
  current_audio : bool;      (* truthiness of self._current_audio *)
  agent_output : bool;       (* self._agent_output is True / None *)
  emitted : list TTSMetrics; (* metrics_collected events, in order *)
  asset_handles : nat        (* asset files currently held open *)
}.

(** [CustomTTS.__init__] *)
Definition engine_init : engine :=
  {| sample_rate := 24000; num_channels := 1; current_audio := false;
     agent_output := false; emitted := []; asset_handles := 0 |}.

Definition set_format (e : engine) (sr nch : Z) : engine :=
  {| sample_rate := sr; num_channels := nch; current_audio := current_audio e;
     agent_output := agent_output e; emitted := emitted e;
     asset_handles := asset_handles e |}.

Definition set_agent_output (e : engine) (b : bool) : engine :=
  {| sample_rate := sample_rate e; num_channels := num_channels e;
     current_audio := current_audio e; agent_output := b;
     emitted := emitted e; asset_handles := asset_handles e |}.

Definition set_current_audio (e : engine) (b : bool) : engine :=
  {| sample_rate := sample_rate e; num_channels := num_channels e;
     current_audio := b; agent_output := agent_output e;
     emitted := emitted e; asset_handles := asset_handles e |}.

(** [self.emit("metrics_collected", metrics)] *)
Definition emit_metrics (e : engine) (m : TTSMetrics) : engine :=
  {| sample_rate := sample_rate e; num_channels := num_channels e;
     current_audio := current_audio e; agent_output := agent_output e;
     emitted := emitted e ++ [m]; asset_handles := asset_handles e |}.

Definition set_handles (e : engine) (n : nat) : engine :=
  {| sample_rate := sample_rate e; num_channels := num_channels e;
     current_audio := current_audio e; agent_output := agent_output e;
     emitted := emitted e; asset_handles := n |}.

(** ** [CustomTTS._create_audio_frame] *)
Definition create_audio_frame (e : engine) (audio_data : list Z)
    (frame_size : Z) : AudioFrame :=
  let frame_size := if frame_size <=? 0
                    then Z.of_nat (List.length audio_data) else frame_size in
  let need := frame_size * num_channels e in
  let audio_data :=
    if Z.of_nat (List.length audio_data) <? need
    then audio_data ++ repeat 0 (Z.to_nat (need - Z.of_nat (List.length audio_data)))
    else audio_data in
  {| frame_data := audio_data; samples_per_channel := frame_size;
     frame_sample_rate := sample_rate e; frame_num_channels := num_channels e |}.


(** ** [CustomTTS.synthesize] as a generator *)

(** [int(self.sample_rate * 0.02)].  For every non-negative integer rate
    below 2^32 the double product truncates to [sample_rate div 50]: when
    50 divides the rate the product rounds to the exact integer, otherwise
    its fractional part is at least 1/50, far above the rounding error. *)
Definition frame_size_of (sr : Z) : Z := sr / 50.

(** [for i in range(0, len(data), step): chunk = data[i:i + step]]
    for a positive [step]; [fuel] bounds the number of iterations. *)
Fixpoint py_chunks (step fuel : nat) (l : list Z) : list (list Z) :=
  match fuel with
  | O => []
  | S fuel' =>
      match l with
      | [] => []
      | _ :: _ => firstn step l :: py_chunks step fuel' (skipn step l)
      end
  end.

Definition range_chunks (step : nat) (l : list Z) : list (list Z) :=
  py_chunks step (List.length l) l.

(** Generator states of [synthesize]: not started, suspended in the frame
    loop with the chunks still to emit, or exhausted. *)
Inductive sgen :=
| SGStart (filename : string)
| SGFrames (frame_size : Z) (rest : list (list Z))
| SGDone.

(** [CustomTTS.stop] *)
Definition stop (e : engine) : engine :=
  let e := if current_audio e then set_current_audio e false else e in
  set_agent_output e false.

Section Synthesize.

(** [os.path.exists(os.path.join(audio_path, filename))] and, when it
    exists, what [wave.open] makes of it. *)
Variable fsys : string -> option wav_open.

(** The body of the [try] of [synthesize] up to the frame loop: [inl] is
    an exception, [inr None] the early [return] on a missing file,
    [inr (Some (frame_size, chunks))] the loop to run. *)
Definition synth_body (e : engine) (filename : string)
    : engine * (py_exn + option (Z * list (list Z))) :=
  match fsys filename with
  | None => (e, inr None)
  | Some WavBad => (e, inl WaveError)
  | Some (WavOk w) =>
      (* with wave.open(...) as wav_file: *)
      let e1 := set_handles e (S (asset_handles e)) in
      let e1 := set_format e1 (framerate w) (nchannels w) in
      let r : py_exn + list Z :=
        if sample_rate e1 =? 0 then inl ZeroDivisionError
        else match samples w with
             | None => inl DecodeError
             | Some d => inr d
             end in
      (* __exit__ closes the file on every path *)
      let e2 := set_handles e1 (asset_handles e) in
      match r with
      | inl x => (e2, inl x)
      | inr audio_data =>
          let metrics := {| num_chars := Z.of_nat (String.length filename);
                            duration_ms :=
                              (inject_Z (nframes w) / inject_Z (sample_rate e2)
                               * inject_Z 1000)%Q;
                            cost_usd := 0%Q |} in
          let e3 := emit_metrics e2 metrics in
          let e3 := set_agent_output e3 true in
          let frame_size := frame_size_of (sample_rate e3) in
          let step := frame_size * num_channels e3 in
          if step =? 0 then (e3, inl RangeStepZero)
          else if step <? 0 then (e3, inr (Some (frame_size, [])))
          else (e3, inr (Some (frame_size, range_chunks (Z.to_nat step) audio_data)))
      end
  end.

(** [try: ... except Exception: log  finally: self._agent_output = None]
    around the body, up to the first pass of the frame loop. *)
Definition synth_start (e : engine) (filename : string) : engine * sgen :=
  match synth_body e filename with
  | (e', inl _) => (set_agent_output e' false, SGDone)
  | (e', inr None) => (set_agent_output e' false, SGDone)
  | (e', inr (Some (fs, chunks))) => (e', SGFrames fs chunks)
  end.

(** One pass of [if len(chunk) > 0: yield self._create_audio_frame(...)]
    up to the next [yield]; the [finally] runs when the loop ends. *)
Fixpoint frames_next (e : engine) (fs : Z) (rest : list (list Z))
    : engine * sgen * option AudioFrame :=
  match rest with
  | [] => (set_agent_output e false, SGDone, None)
  | chunk :: rest' =>
      if 0 <? Z.of_nat (List.length chunk)
      then (e, SGFrames fs rest', Some (create_audio_frame e chunk fs))
      else frames_next e fs rest'
  end.

(** [__anext__] of the [synthesize] generator. *)
Definition synth_next (e : engine) (g : sgen) : engine * sgen * option AudioFrame :=
  match g with
  | SGStart fn =>
      let '(e1, g1) := synth_start e fn in
      match g1 with
      | SGFrames fs rest => frames_next e1 fs rest
      | _ => (e1, g1, None)
      end
  | SGFrames fs rest => frames_next e fs rest
  | SGDone => (e, SGDone, None)
  end.

(** A consumer pulling at most [n] frames. *)
Fixpoint synth_run (n : nat) (e : engine) (g : sgen) : list AudioFrame * engine * sgen :=
  match n with
  | O => ([], e, g)
  | S n' =>
      let '(e', g', o) := synth_next e g in
      match o with
      | None => ([], e', g')
      | Some f => let '(fr, e'', g'') := synth_run n' e' g' in (f :: fr, e'', g'')
      end
  end.

End Synthesize.

(** ** [TTSStream] *)

Record stream := {
  text_queue : list string;
  ended : bool;
  closed : bool;
  accumulated_text : string
}.

(** [TTSStream.__init__] *)
Definition stream_init : stream :=
  {| text_queue := []; ended := false; closed := false;
     accumulated_text := EmptyString |}.

Definition with_queue (s : stream) (q : list string) : stream :=
  {| text_queue := q; ended := ended s; closed := closed s;
     accumulated_text := accumulated_text s |}.

(** [TTSStream.push_text] *)
Definition push_text (s : stream) (text : string) : stream :=
  if ended s || closed s then s
  else {| text_queue := text_queue s; ended := ended s; closed := closed s;
          accumulated_text := accumulated_text s ++ text |}.

(** [TTSStream.end_input] (the [print] is not modelled). *)
Definition end_input (s : stream) : stream :=
  let t := strip (accumulated_text s) in
  let q := if String.eqb t EmptyString then text_queue s
           else text_queue s ++ [t] in
  {| text_queue := q; ended := true; closed := closed s;
     accumulated_text := accumulated_text s |}.

(** [TTSStream.aclose], which awaits [self.tts.stop()]. *)
Definition aclose (s : stream) (e : engine) : stream * engine :=
  ({| text_queue := []; ended := ended s; closed := true;
      accumulated_text := EmptyString |}, stop e).

Definition greeting_keywords : list string :=
  ["hello"; "hi"; "hey"; "greetings"]%string.

(** [TTSStream._get_audio_filename] *)
Definition get_audio_filename (text : string) : string :=
  let text := strip (lower text) in
  if existsb (fun greeting => contains greeting text) greeting_keywords
  then "greetings.wav"%string
  else "greetings.wav"%string.

(** Generator states of [TTSStream.__aiter__]: at the head of the [while]
    loop, suspended in the [async for] over [synthesize], or finished. *)
Inductive agen :=
| AILoop
| AIFor (sg : sgen)
| AIDone.

(** What one [__anext__] call does: yield a frame, suspend in
    [asyncio.sleep(0.1)] on an empty queue, or end the iteration. *)
Inductive step_out :=
| Yield (f : AudioFrame)
| Sleeping
| Finished.

Definition nonempty {A} (l : list A) : bool :=
  match l with [] => false | _ => true end.

Section Iterate.

Variable fsys : string -> option wav_open.

(** The [while] loop from its head, with [q] the current [text_queue];
    recursion is on the queue, which every [popleft] shortens.  On exit
    the [finally] calls [aclose] unless the stream is already closed. *)
Fixpoint loop_head (q : list string) (s : stream) (e : engine)
    : stream * engine * agen * step_out :=
  if (negb (ended s) || nonempty q) && negb (closed s) then
    match q with
    | [] => (with_queue s [], e, AILoop, Sleeping)
    | text :: q' =>
        let s' := with_queue s q' in
        let audio_filename := get_audio_filename text in
        let '(e', sg', o) := synth_next fsys e (SGStart audio_filename) in
        match o with
        | Some f => if closed s' then loop_head q' s' e'
                    else (s', e', AIFor sg', Yield f)
        | None => loop_head q' s' e'
        end
    end
  else
    let s0 := with_queue s q in
    if closed s0 then (s0, e, AIDone, Finished)
    else let '(s1, e1) := aclose s0 e in (s1, e1, AIDone, Finished).

(** [__anext__] of [TTSStream.__aiter__()]. *)
Definition aiter_next (s : stream) (e : engine) (g : agen)
    : stream * engine * agen * step_out :=
  match g with
  | AIDone => (s, e, AIDone, Finished)
  | AILoop => loop_head (text_queue s) s e
  | AIFor sg =>
      let '(e', sg', o) := synth_next fsys e sg in
      match o with
      | Some f => if closed s then loop_head (text_queue s) s e'
                  else (s, e', AIFor sg', Yield f)
      | None => loop_head (text_queue s) s e'
      end
  end.

(** A consumer calling [__anext__] at most [n] times and collecting the
    yielded frames; [None] when it stopped after [n] frames. *)
Fixpoint aiter_run (n : nat) (s : stream) (e : engine) (g : agen)
    : list AudioFrame * option step_out * stream * engine * agen :=
  match n with
  | O => ([], None, s, e, g)
  | S n' =>
      let '(s', e', g', o) := aiter_next s e g in
      match o with
      | Yield f =>
          let '(fr, r, s'', e'', g'') := aiter_run n' s' e' g' in
          (f :: fr, r, s'', e'', g'')
      | o => ([], Some o, s', e', g')
      end
  end.

End Iterate.

(** Operations another task may apply to a stream. *)
Inductive stream_op :=
| OpPush (text : string)
| OpEnd.

Definition apply_op (s : stream) (op : stream_op) : stream :=
  match op with
  | OpPush t => push_text s t
  | OpEnd => end_input s
  end.

Definition push_all (s : stream) (frags : list string) : stream :=
  fold_left push_text frags s.

(** Everything the [synthesize] generator yields when drained. *)
Definition synth_frames (fsys : string -> option wav_open) (e : engine)
    (filename : string) : list AudioFrame :=
  match synth_start fsys e filename with
  | (e1, SGFrames fs rest) =>
      map (fun chunk => create_audio_frame e1 chunk fs)
          (filter (fun chunk => 0 <? Z.of_nat (List.length chunk)) rest)
  | _ => []
  end.

(** The spec's frame count [ceil(D / 0.02)] for [D = nframes / rate]. *)
Definition spec_frame_count (sr nf : Z) : Z :=
  Qceiling ((inject_Z nf / inject_Z sr) / (1 # 50))%Q.

(** The [TTSMetrics] that [synthesize] builds for a decoded file. *)
Definition metrics_of (filename : string) (w : wav_file) : TTSMetrics :=
  {| num_chars := Z.of_nat (String.length filename);
     duration_ms := (inject_Z (nframes w) / inject_Z (framerate w) * inject_Z 1000)%Q;
     cost_usd := 0%Q |}.

Definition frames_of (r : list AudioFrame * engine * sgen) : list AudioFrame :=
  let '(fr, _, _) := r in fr.

Definition started (g : sgen) : bool :=
  match g with SGStart _ => false | _ => true end.

(** The engine after the decoding prologue of a successful call. *)
Definition decoded_engine (e : engine) (fn : string) (w : wav_file) : engine :=
  set_agent_output
    (emit_metrics
       (set_handles (set_format (set_handles e (S (asset_handles e)))
                                (framerate w) (nchannels w))
                    (asset_handles e))
       (metrics_of fn w)) true.

(** The inputs on which [synthesize] fails before emitting metrics. *)
Definition decode_fails (fsys : string -> option wav_open) (fn : string) : Prop :=
  fsys fn = None \/ fsys fn = Some WavBad \/
  exists w, fsys fn = Some (WavOk w) /\ (framerate w = 0 \/ samples w = None).

(** Engine fields the frame loop never touches. *)
Definition same_fields (e e' : engine) : Prop :=
  emitted e' = emitted e /\ asset_handles e' = asset_handles e /\
  sample_rate e' = sample_rate e /\ num_channels e' = num_channels e /\
  current_audio e' = current_audio e.

(** [len(chunk) > 0] *)
Definition nz_chunk (chunk : list Z) : bool := 0 <? Z.of_nat (List.length chunk).

(** Frames yielded before a run continues as [r]. *)
Definition prepend (fr : list AudioFrame)
    (r : list AudioFrame * option step_out * stream * engine * agen)
    : list AudioFrame * option step_out * stream * engine * agen :=
  let '(a, o, s, e, g) := r in (fr ++ a, o, s, e, g).

(** A small stereo asset used to exercise the theorems below. *)
Definition demo_wav : wav_file :=
  {| framerate := 100; nchannels := 2; nframes := 3;
     samples := Some [1; 2; 3; 4; 5; 6] |}.

Definition demo_fsys (fn : string) : option wav_open :=
  if String.eqb fn "greetings.wav" then Some (WavOk demo_wav) else None.

(** ** [SimpleEventEmitter] *)

Section Emitter.

(** [D] is the type of the event payloads, [St] the state of the world
    the callbacks act on. *)
Context {D St : Type}.

(** A callback called as [callback(data)], or as [callback()] when [data]
    is [None]: the new world state and whether it raised.  Callbacks do
    not register further callbacks. *)
Definition callback : Type := option D -> St -> St * bool.

(** [self._events]: event name to the list of its callbacks. *)
Definition emitter : Type := list (string * list callback).

(** [SimpleEventEmitter.__init__] *)
Definition emitter_init : emitter := [].

(** [self._events[event]] when [event in self._events]. *)
Fixpoint events_lookup (evs : emitter) (ev : string) : option (list callback) :=
  match evs with
  | [] => None
  | (k, cbs) :: r => if String.eqb k ev then Some cbs else events_lookup r ev
  end.

(** [if event not in self._events: self._events[event] = []]
    [self._events[event].append(cb)] *)
Fixpoint events_append (evs : emitter) (ev : string) (cb : callback) : emitter :=
  match evs with
  | [] => [(ev, [cb])]
  | (k, cbs) :: r =>
      if String.eqb k ev then (k, cbs ++ [cb]) :: r
      else (k, cbs) :: events_append r ev cb
  end.

(** The inner [decorator(cb)] of [on]: registers [cb] and returns it. *)
Definition decorator (ev : string) (cb : callback) (evs : emitter) : emitter * callback :=
  (events_append evs ev cb, cb).

(** What [on] returns: the decorator, or the registered callback. *)
Inductive on_result :=
| OnDecorator (dec : callback -> emitter -> emitter * callback)
| OnCallback (cb : callback).

(** [SimpleEventEmitter.on(event, callback=None)] *)
Definition on (evs : emitter) (ev : string) (cb : option callback) : emitter * on_result :=
  match cb with
  | None => (evs, OnDecorator (decorator ev))
  | Some cb => let '(evs', r) := decorator ev cb evs in (evs', OnCallback r)
  end.

(** The [for] loop of [emit]: every callback in order, each exception
    caught and logged; the number of [logger.error] calls is returned. *)
Fixpoint run_callbacks (cbs : list callback) (data : option D) (st : St) : St * nat :=
  match cbs with
  | [] => (st, O)
  | cb :: r =>
      let '(st1, raised) := cb data st in
      let '(st2, n) := run_callbacks r data st1 in
      (st2, ((if raised then 1 else 0) + n)%nat)
  end.

(** [SimpleEventEmitter.emit(event, data=None)] *)
Definition emit (evs : emitter) (ev : string) (data : option D) (st : St) : St * nat :=
  match events_lookup evs ev with
  | None => (st, O)
  | Some cbs => run_callbacks cbs data st
  end.

(** Successive [on(event, callback)] calls on a fresh emitter. *)
Definition register_all (regs : list (string * callback)) : emitter :=
  fold_left (fun evs r => fst (on evs (fst r) (Some (snd r)))) regs emitter_init.

End Emitter.

(** [CustomTTS.get_sample_rate] *)
Definition get_sample_rate (e : engine) : Z := sample_rate e.

(** The [synthesize] generator is suspended at a [yield]. *)
Definition suspended (g : sgen) : bool :=
  match g with SGFrames _ _ => true | _ => false end.

(** The frames of the utterances [q], each synthesized in turn. *)
Definition queue_frames (fsys : string -> option wav_open) (e : engine)
    (q : list string) : list AudioFrame :=
  List.concat (map (fun t => synth_frames fsys e (get_audio_filename t)) q).

(** ** Lemmas *)

Lemma str_app_nil_r : forall s : string, (s ++ EmptyString)%string = s.
Proof. induction s as [|c s IH]; simpl; [reflexivity | now rewrite IH]. Qed.

Lemma str_app_assoc : forall a b c : string, (a ++ (b ++ c))%string = ((a ++ b) ++ c)%string.
Proof. induction a as [|x a IH]; intros; simpl; [reflexivity | now rewrite IH]. Qed.

Lemma concat_empty_cons : forall x xs,
  String.concat EmptyString (x :: xs) = (x ++ String.concat EmptyString xs)%string.
Proof.
  intros x [|y ys]; simpl; [now rewrite str_app_nil_r | reflexivity].
Qed.

Lemma push_all_open : forall frags s,
  ended s = false -> closed s = false ->
  push_all s frags =
  {| text_queue := text_queue s; ended := false; closed := false;
     accumulated_text := (accumulated_text s ++ String.concat EmptyString frags)%string |}.
Proof.
  unfold push_all.
  induction frags as [|x xs IH]; intros s He Hc.
  - destruct s; simpl in *; subst; now rewrite str_app_nil_r.
  - rewrite concat_empty_cons. cbn [fold_left].
    unfold push_text at 2. rewrite He, Hc. cbn [orb].
    rewrite IH by reflexivity. cbn [accumulated_text text_queue].
    now rewrite str_app_assoc.
Qed.

(** After [aclose], any later [push_text] / [end_input] keeps the stream
    closed with an empty accumulator and queue. *)
Lemma ops_after_close : forall ops s,
  closed s = true -> accumulated_text s = EmptyString -> text_queue s = [] ->
  let s' := fold_left apply_op ops s in
  closed s' = true /\ accumulated_text s' = EmptyString /\ text_queue s' = [].
Proof.
  induction ops as [|op ops IH]; intros s Hc Ha Hq; simpl; [auto|].
  apply IH.
  - destruct op; simpl; [unfold push_text; rewrite Hc, orb_true_r; exact Hc
                        | exact Hc].
  - destruct op; simpl; [unfold push_text; rewrite Hc, orb_true_r; exact Ha
                        | exact Ha].
  - destruct op; simpl; [unfold push_text; rewrite Hc, orb_true_r; exact Hq
                        | rewrite Ha; simpl; exact Hq].
Qed.

Lemma loop_head_closed : forall fsys q s e,
  closed s = true -> loop_head fsys q s e = (with_queue s q, e, AIDone, Finished).
Proof.
  intros fsys q s e Hc. destruct q; simpl; rewrite Hc, andb_false_r; reflexivity.
Qed.

Lemma aiter_next_closed : forall fsys s e g,
  closed s = true ->
  exists e', aiter_next fsys s e g = (with_queue s (text_queue s), e', AIDone, Finished)
             \/ aiter_next fsys s e g = (s, e', AIDone, Finished).
Proof.
  intros fsys s e g Hc. destruct g as [|sg|]; simpl.
  - exists e. left. now apply loop_head_closed.
  - destruct (synth_next fsys e sg) as [[e' sg'] o].
    exists e'. left. destruct o; [rewrite Hc|]; now apply loop_head_closed.
  - exists e. now right.
Qed.

(** *** Chunking *)

Lemma py_chunks_nil : forall step fuel, py_chunks step fuel [] = [].
Proof. intros step [|fuel]; reflexivity. Qed.

Lemma ceil_div_step : forall len step,
  (0 < step)%nat -> (step <= len)%nat ->
  ((len + step - 1) / step = S ((len - step + step - 1) / step))%nat.
Proof.
  intros len step Hs Hl.
  replace (len + step - 1)%nat with ((len - step + step - 1) + 1 * step)%nat by lia.
  rewrite Nat.div_add by lia. lia.
Qed.

Lemma ceil_div_small : forall len step,
  (0 < len)%nat -> (len < step)%nat -> ((len + step - 1) / step = 1)%nat.
Proof.
  intros len step H0 Hl.
  replace (len + step - 1)%nat with ((len - 1) + 1 * step)%nat by lia.
  rewrite Nat.div_add, Nat.div_small by lia. reflexivity.
Qed.

(** The Python [range]/slice loop cuts [l] into [ceil(len / step)]
    non-empty chunks of at most [step] samples, and padding every chunk
    on the right to [step] samples gives back [l] followed by zeros. *)
Lemma py_chunks_spec : forall step fuel l,
  (0 < step)%nat -> (List.length l <= fuel)%nat ->
  let cs := py_chunks step fuel l in
  Forall (fun c => 0 < List.length c /\ List.length c <= step)%nat cs /\
  List.concat (map (fun c => c ++ repeat 0 (step - List.length c)) cs) =
    l ++ repeat 0 (List.length cs * step - List.length l) /\
  List.length cs = ((List.length l + step - 1) / step)%nat.
Proof.
  intros step fuel. induction fuel as [|fuel IH]; intros l Hs Hl cs.
  - destruct l; [|simpl in Hl; lia].
    unfold cs. simpl. split; [constructor|]. split; [reflexivity|].
    rewrite Nat.div_small by lia. reflexivity.
  - destruct l as [|x r] eqn:El.
    + unfold cs. simpl. split; [constructor|]. split; [reflexivity|].
      rewrite Nat.div_small by lia. reflexivity.
    + rewrite <- El in *.
      assert (Hne : l <> []) by (rewrite El; discriminate).
      assert (Hcs : cs = firstn step l :: py_chunks step fuel (skipn step l))
        by (unfold cs; rewrite El; reflexivity).
      assert (Hlen : (List.length l > 0)%nat) by (rewrite El; simpl; lia).
      destruct (IH (skipn step l) Hs) as (HF & HC & HL);
        [rewrite length_skipn; lia|].
      set (cs' := py_chunks step fuel (skipn step l)) in *.
      rewrite Hcs. clear Hcs.
      rewrite length_skipn in HC, HL.
      split; [constructor; [rewrite length_firstn; split; lia | exact HF]|].
      cbn [map List.concat List.length]. rewrite length_firstn.
      destruct (Nat.le_gt_cases step (List.length l)) as [Hge|Hlt].
      * rewrite Nat.min_l by exact Hge.
        rewrite Nat.sub_diag, app_nil_r, HC.
        rewrite app_assoc, firstn_skipn.
        split; [f_equal; f_equal; nia|].
        rewrite HL. symmetry. apply ceil_div_step; assumption.
      * rewrite Nat.min_r by lia.
        assert (Hsk : skipn step l = []) by (apply skipn_all2; lia).
        assert (Hc' : cs' = []) by (unfold cs'; rewrite Hsk; apply py_chunks_nil).
        rewrite Hc', firstn_all2 by lia. cbn [map List.concat List.length].
        rewrite !app_nil_r.
        split; [f_equal; f_equal; lia|].
        symmetry. apply ceil_div_small; lia.
Qed.

Lemma filter_all_true : forall {A} (p : A -> bool) l,
  Forall (fun x => p x = true) l -> filter p l = l.
Proof.
  intros A p l H. induction H as [|x l Hx _ IH]; simpl; [reflexivity|].
  now rewrite Hx, IH.
Qed.

Lemma Forall_firstn_of : forall {A} (P : A -> Prop) n l,
  Forall P l -> Forall P (firstn n l).
Proof.
  intros A P n l H. rewrite Forall_forall in *. intros x Hx.
  apply H. rewrite <- (firstn_skipn n l). apply in_or_app. now left.
Qed.

(** [_create_audio_frame] on a non-empty chunk of at most
    [frame_size * num_channels] samples pads it with zeros on the right
    to exactly that length. *)
Lemma create_audio_frame_pad : forall e c fs,
  0 < fs -> Z.of_nat (List.length c) <= fs * num_channels e ->
  frame_data (create_audio_frame e c fs) =
    c ++ repeat 0 (Z.to_nat (fs * num_channels e) - List.length c) /\
  samples_per_channel (create_audio_frame e c fs) = fs /\
  frame_num_channels (create_audio_frame e c fs) = num_channels e.
Proof.
  intros e c fs Hfs Hle. unfold create_audio_frame.
  replace (fs <=? 0) with false by (symmetry; apply Z.leb_gt; lia).
  destruct (Z.of_nat (List.length c) <? fs * num_channels e) eqn:Hlt; cbn.
  - repeat split. f_equal. f_equal. lia.
  - apply Z.ltb_ge in Hlt.
    replace (Z.to_nat (fs * num_channels e) - List.length c)%nat with O by lia.
    repeat split. now rewrite app_nil_r.
Qed.

Lemma py_chunks_length_fuel : forall step fuel l,
  (List.length (py_chunks step fuel l) <= fuel)%nat.
Proof.
  intros step fuel. induction fuel as [|fuel IH]; intros l; [simpl; lia|].
  destruct l; simpl; [lia|]. specialize (IH (skipn step (z :: l))). lia.
Qed.

(** *** The [synthesize] generator *)

Section SynthLemmas.

Variable fsys : string -> option wav_open.


Lemma synth_start_ok : forall e fn w d,
  fsys fn = Some (WavOk w) -> framerate w <> 0 -> samples w = Some d ->
  let e3 := decoded_engine e fn w in
  let fs := frame_size_of (framerate w) in
  let step := fs * nchannels w in
  synth_start fsys e fn =
  if step =? 0 then (set_agent_output e3 false, SGDone)
  else if step <? 0 then (e3, SGFrames fs [])
  else (e3, SGFrames fs (range_chunks (Z.to_nat step) d)).
Proof.
  intros e fn w d Hf Hz Hs e3 fs step.
  unfold synth_start, synth_body. rewrite Hf. cbn [sample_rate set_format num_channels].
  apply Z.eqb_neq in Hz. rewrite Hz, Hs.
  cbn [sample_rate num_channels set_agent_output emit_metrics set_handles set_format].
  unfold step, fs, e3, decoded_engine.
  destruct (frame_size_of (framerate w) * nchannels w =? 0); [reflexivity|].
  destruct (frame_size_of (framerate w) * nchannels w <? 0); reflexivity.
Qed.


Lemma synth_start_fail : forall e fn,
  decode_fails fsys fn ->
  exists e1, synth_start fsys e fn = (e1, SGDone) /\ emitted e1 = emitted e /\
             asset_handles e1 = asset_handles e /\ current_audio e1 = current_audio e.
Proof.
  intros e fn [Hf|[Hf|[w [Hf [Hz|Hs]]]]];
    unfold synth_start, synth_body; rewrite Hf.
  - eexists; repeat split; reflexivity.
  - eexists; repeat split; reflexivity.
  - cbn [sample_rate set_format]. rewrite Hz. cbn.
    eexists; repeat split; reflexivity.
  - cbn [sample_rate set_format]. rewrite Hs.
    destruct (framerate w =? 0); cbn; eexists; repeat split; reflexivity.
Qed.

Lemma decode_cases : forall fn,
  decode_fails fsys fn \/
  exists w d, fsys fn = Some (WavOk w) /\ framerate w <> 0 /\ samples w = Some d.
Proof.
  intros fn. unfold decode_fails.
  destruct (fsys fn) as [[w|]|] eqn:Hf; auto.
  destruct (Z.eq_dec (framerate w) 0) as [Hz|Hz]; [left; right; right; eauto|].
  destruct (samples w) as [d|] eqn:Hs; [right; eauto|left; right; right; eauto].
Qed.


Lemma same_fields_refl : forall e, same_fields e e.
Proof. intros e; repeat split. Qed.

Lemma same_fields_trans : forall e1 e2 e3,
  same_fields e1 e2 -> same_fields e2 e3 -> same_fields e1 e3.
Proof.
  unfold same_fields; intros e1 e2 e3 (A1&B1&C1&D1&E1) (A2&B2&C2&D2&E2).
  repeat split; congruence.
Qed.

Lemma frames_next_shape : forall rest e fs,
  frames_next e fs rest = (set_agent_output e false, SGDone, None) \/
  exists chunk rest', frames_next e fs rest =
                      (e, SGFrames fs rest', Some (create_audio_frame e chunk fs)).
Proof.
  induction rest as [|c r IH]; intros e fs; simpl; [now left|].
  destruct (0 <? Z.of_nat (List.length c)); [right; eauto | apply IH].
Qed.

Lemma synth_next_started : forall e g,
  started g = true ->
  let '(e', g', _) := synth_next fsys e g in same_fields e e' /\ started g' = true.
Proof.
  intros e [fn| fs rest |] Hg; try discriminate Hg; simpl.
  - destruct (frames_next_shape rest e fs) as [H|(c & r & H)]; rewrite H;
      (split; [unfold same_fields; repeat split | reflexivity]).
  - split; [apply same_fields_refl | reflexivity].
Qed.

Lemma synth_run_started : forall n e g,
  started g = true ->
  let '(_, e', g') := synth_run fsys n e g in same_fields e e' /\ started g' = true.
Proof.
  induction n as [|n IH]; intros e g Hg; simpl; [split; [apply same_fields_refl|exact Hg]|].
  pose proof (synth_next_started e g Hg) as Hn.
  destruct (synth_next fsys e g) as [[e' g'] o].
  destruct Hn as [Hs Hg'].
  destruct o as [f|]; [|split; assumption].
  specialize (IH e' g' Hg').
  destruct (synth_run fsys n e' g') as [[fr e''] g''].
  destruct IH as [Hs' Hg'']. split; [eapply same_fields_trans; eassumption | exact Hg''].
Qed.

Lemma synth_run_start : forall n e fn,
  synth_run fsys (S n) e (SGStart fn) =
  let '(e1, g1) := synth_start fsys e fn in
  match g1 with
  | SGFrames _ _ => synth_run fsys (S n) e1 g1
  | _ => ([], e1, g1)
  end.
Proof.
  intros n e fn. cbn [synth_run synth_next].
  destruct (synth_start fsys e fn) as [e1 [f|fs rest|]]; reflexivity.
Qed.

Lemma synth_run_frames : forall rest n e fs,
  frames_of (synth_run fsys n e (SGFrames fs rest)) =
  firstn n (map (fun chunk => create_audio_frame e chunk fs)
                (filter (fun chunk => 0 <? Z.of_nat (List.length chunk)) rest)).
Proof.
  induction rest as [|c r IH]; intros [|n] e fs; try reflexivity.
  cbn [synth_run synth_next frames_next filter].
  destruct (0 <? Z.of_nat (List.length c)).
  - cbn [map firstn]. specialize (IH n e fs). unfold frames_of in *.
    destruct (synth_run fsys n e (SGFrames fs r)) as [[fr e''] g''].
    now rewrite IH.
  - rewrite <- IH. reflexivity.
Qed.

Lemma synth_run_prefix : forall n e fn,
  frames_of (synth_run fsys n e (SGStart fn)) = firstn n (synth_frames fsys e fn).
Proof.
  intros [|n] e fn; [reflexivity|].
  rewrite synth_run_start. unfold synth_frames.
  destruct (synth_start fsys e fn) as [e1 [f|fs rest|]]; try reflexivity.
  apply synth_run_frames.
Qed.

Lemma synth_start_ok_fields : forall e fn w d,
  fsys fn = Some (WavOk w) -> framerate w <> 0 -> samples w = Some d ->
  let e1 := fst (synth_start fsys e fn) in
  emitted e1 = emitted e ++ [metrics_of fn w] /\
  asset_handles e1 = asset_handles e /\ current_audio e1 = current_audio e /\
  sample_rate e1 = framerate w /\ num_channels e1 = nchannels w.
Proof.
  intros e fn w d Hf Hz Hs e1. unfold e1.
  rewrite (synth_start_ok e fn w d Hf Hz Hs). cbn zeta.
  destruct (_ =? 0); [|destruct (_ <? 0)]; repeat split.
Qed.

Lemma synth_start_started : forall e fn, started (snd (synth_start fsys e fn)) = true.
Proof.
  intros e fn. destruct (decode_cases fn) as [Hfail|(w & d & Hf & Hz & Hs)].
  - destruct (synth_start_fail e fn Hfail) as (e1 & H & _). now rewrite H.
  - rewrite (synth_start_ok e fn w d Hf Hz Hs). cbn zeta.
    destruct (_ =? 0); [|destruct (_ <? 0)]; reflexivity.
Qed.

(** Pulling from a fresh generator: the engine after the prologue is kept
    by the frame loop in every observed field. *)
Lemma synth_run_from_start : forall n e fn,
  let '(_, e', _) := synth_run fsys n e (SGStart fn) in
  n = O \/ same_fields (fst (synth_start fsys e fn)) e'.
Proof.
  intros [|n] e fn; [cbn; now left|].
  rewrite synth_run_start.
  pose proof (synth_start_started e fn) as Hst.
  destruct (synth_start fsys e fn) as [e1 g1]. cbn [fst snd] in *.
  destruct g1 as [f|fs rest|]; try discriminate Hst.
  - pose proof (synth_run_started (S n) e1 (SGFrames fs rest) eq_refl) as H.
    destruct (synth_run fsys (S n) e1 (SGFrames fs rest)) as [[fr e'] g'].
    right; apply H.
  - right; apply same_fields_refl.
Qed.

Lemma synth_next_from_start : forall e fn,
  let '(e', _, _) := synth_next fsys e (SGStart fn) in
  same_fields (fst (synth_start fsys e fn)) e'.
Proof.
  intros e fn.
  pose proof (synth_start_started e fn) as Hst. cbn [synth_next].
  destruct (synth_start fsys e fn) as [e1 g1]. cbn [fst snd] in *.
  destruct g1 as [f|fs rest|]; try discriminate Hst.
  - pose proof (synth_next_started e1 (SGFrames fs rest) eq_refl) as H.
    cbn [synth_next] in H. destruct (frames_next e1 fs rest) as [[e' g'] o].
    apply H.
  - apply same_fields_refl.
Qed.

Lemma create_audio_frame_agree : forall e e' chunk fs,
  sample_rate e = sample_rate e' -> num_channels e = num_channels e' ->
  create_audio_frame e chunk fs = create_audio_frame e' chunk fs.
Proof. intros e e' chunk fs H1 H2. unfold create_audio_frame. now rewrite H1, H2. Qed.

Lemma frames_next_agree : forall rest e e' fs,
  sample_rate e = sample_rate e' -> num_channels e = num_channels e' ->
  snd (frames_next e fs rest) = snd (frames_next e' fs rest).
Proof.
  induction rest as [|c r IH]; intros e e' fs H1 H2; simpl; [reflexivity|].
  destruct (0 <? Z.of_nat (List.length c)); [|now apply IH].
  simpl. now rewrite (create_audio_frame_agree e e' c fs H1 H2).
Qed.

(** What a fresh [synthesize] yields first does not depend on the engine
    it starts from: the prologue overwrites the format fields. *)
Lemma synth_start_agree : forall e e' fn,
  snd (synth_start fsys e fn) = snd (synth_start fsys e' fn) /\
  (started (snd (synth_start fsys e fn)) = true ->
   sample_rate (fst (synth_start fsys e fn)) = sample_rate (fst (synth_start fsys e' fn)) \/
   snd (synth_start fsys e fn) = SGDone) /\
  (num_channels (fst (synth_start fsys e fn)) = num_channels (fst (synth_start fsys e' fn)) \/
   snd (synth_start fsys e fn) = SGDone).
Proof.
  intros e e' fn. destruct (decode_cases fn) as [Hfail|(w & d & Hf & Hz & Hs)].
  - destruct (synth_start_fail e fn Hfail) as (e1 & H & _).
    destruct (synth_start_fail e' fn Hfail) as (e1' & H' & _).
    rewrite H, H'. split; [reflexivity|]. split; [intros _; now right | now right].
  - pose proof (synth_start_ok_fields e fn w d Hf Hz Hs) as (_ & _ & _ & A1 & B1).
    pose proof (synth_start_ok_fields e' fn w d Hf Hz Hs) as (_ & _ & _ & A2 & B2).
    split; [|split; [intros _; left; congruence | left; congruence]].
    rewrite (synth_start_ok e fn w d Hf Hz Hs), (synth_start_ok e' fn w d Hf Hz Hs).
    cbn zeta. destruct (_ =? 0); [|destruct (_ <? 0)]; reflexivity.
Qed.

Lemma synth_next_agree : forall e e' g,
  sample_rate e = sample_rate e' -> num_channels e = num_channels e' ->
  snd (synth_next fsys e g) = snd (synth_next fsys e' g).
Proof.
  intros e e' [fn|fs rest|] H1 H2; cbn [synth_next]; [|now apply frames_next_agree|reflexivity].
  destruct (synth_start_agree e e' fn) as (Hg & Hsr & Hnc).
  destruct (synth_start fsys e fn) as [e1 g1].
  destruct (synth_start fsys e' fn) as [e1' g1'].
  cbn [fst snd] in *. subst g1'.
  destruct g1 as [f|fs rest|]; try reflexivity.
  destruct (Hsr eq_refl) as [Hs|Hs]; [|discriminate Hs].
  destruct Hnc as [Hn|Hn]; [|discriminate Hn].
  now apply frames_next_agree.
Qed.

Lemma synth_frames_ok : forall e fn w d,
  fsys fn = Some (WavOk w) -> framerate w <> 0 -> samples w = Some d ->
  0 < frame_size_of (framerate w) * nchannels w ->
  let step := Z.to_nat (frame_size_of (framerate w) * nchannels w) in
  synth_frames fsys e fn =
  map (fun chunk => create_audio_frame (decoded_engine e fn w) chunk
                                       (frame_size_of (framerate w)))
      (range_chunks step d) /\
  (0 < step)%nat.
Proof.
  intros e fn w d Hf Hz Hs Hpos step.
  split; [|unfold step; lia].
  unfold synth_frames. rewrite (synth_start_ok e fn w d Hf Hz Hs). cbn zeta.
  replace (frame_size_of (framerate w) * nchannels w =? 0) with false
    by (symmetry; apply Z.eqb_neq; lia).
  replace (frame_size_of (framerate w) * nchannels w <? 0) with false
    by (symmetry; apply Z.ltb_ge; lia).
  f_equal. apply filter_all_true.
  destruct (py_chunks_spec step (List.length d) d) as (HF & _); [unfold step; lia | lia|].
  eapply Forall_impl; [|exact HF]. intros c [Hc _]. cbn beta. apply Z.ltb_lt. lia.
Qed.

End SynthLemmas.

Lemma ceil_div_scale : forall nf fs nch,
  0 < fs -> 0 < nch -> 0 <= nf ->
  (nf * nch + fs * nch - 1) / (fs * nch) = (nf + fs - 1) / fs.
Proof.
  intros nf fs nch Hfs Hn Hnf.
  pose proof (Z.div_mod (nf + fs - 1) fs ltac:(lia)) as Hdm.
  pose proof (Z.mod_pos_bound (nf + fs - 1) fs Hfs) as Hb.
  set (q := (nf + fs - 1) / fs) in *. set (r := (nf + fs - 1) mod fs) in *.
  symmetry. apply Z.div_unique_pos with (r := r * nch + nch - 1); nia.
Qed.

(** *** The [TTSStream] iterator *)



Lemma prepend_nil : forall r, prepend [] r = r.
Proof. intros [[[[a o] s] e] g]. reflexivity. Qed.

Lemma prepend_cons : forall f fr r, prepend (f :: fr) r = let '(a, o, s, e, g) := prepend fr r in (f :: a, o, s, e, g).
Proof. intros f fr [[[[a o] s] e] g]. reflexivity. Qed.

Lemma synth_frames_indep : forall fsys e e' fn,
  synth_frames fsys e fn = synth_frames fsys e' fn.
Proof.
  intros fsys e e' fn. destruct (decode_cases fsys fn) as [Hfail|(w & d & Hf & Hz & Hs)].
  - unfold synth_frames.
    destruct (synth_start_fail fsys e fn Hfail) as (e1 & H & _).
    destruct (synth_start_fail fsys e' fn Hfail) as (e1' & H' & _).
    now rewrite H, H'.
  - unfold synth_frames.
    rewrite (synth_start_ok fsys e fn w d Hf Hz Hs), (synth_start_ok fsys e' fn w d Hf Hz Hs).
    cbn zeta. destruct (_ =? 0); [reflexivity|]. destruct (_ <? 0); [reflexivity|].
    apply map_ext. intros c. now apply create_audio_frame_agree.
Qed.

Lemma frames_next_filter : forall rest e fs,
  match filter nz_chunk rest with
  | [] => frames_next e fs rest = (set_agent_output e false, SGDone, None)
  | c :: fr' => exists rest', frames_next e fs rest =
                  (e, SGFrames fs rest', Some (create_audio_frame e c fs)) /\
                  filter nz_chunk rest' = fr'
  end.
Proof.
  induction rest as [|c r IH]; intros e fs; [reflexivity|].
  cbn [filter frames_next]. unfold nz_chunk at 1 2.
  destruct (0 <? Z.of_nat (List.length c)); [eexists; split; reflexivity|].
  apply IH.
Qed.

Lemma aiter_run_yield : forall fsys m s e g s' e' g' f,
  aiter_next fsys s e g = (s', e', g', Yield f) ->
  aiter_run fsys (S m) s e g =
  let '(fr, r, s'', e'', g'') := aiter_run fsys m s' e' g' in (f :: fr, r, s'', e'', g'').
Proof. intros fsys m s e g s' e' g' f H. cbn [aiter_run]. now rewrite H. Qed.

Lemma aiter_run_same : forall fsys m s e g s' e' g',
  aiter_next fsys s e g = aiter_next fsys s' e' g' ->
  aiter_run fsys (S m) s e g = aiter_run fsys (S m) s' e' g'.
Proof. intros fsys m s e g s' e' g' H. cbn [aiter_run]. now rewrite H. Qed.

Lemma filter_nz_cons : forall c r,
  filter nz_chunk (c :: r) = if nz_chunk c then c :: filter nz_chunk r else filter nz_chunk r.
Proof. reflexivity. Qed.

Lemma run_for_frames : forall fsys rest s e fs n,
  closed s = false ->
  aiter_run fsys (List.length (filter nz_chunk rest) + S n) s e (AIFor (SGFrames fs rest)) =
  prepend (map (fun c => create_audio_frame e c fs) (filter nz_chunk rest))
          (aiter_run fsys (S n) s (set_agent_output e false) AILoop).
Proof.
  intros fsys rest s e fs n Hc. revert e.
  induction rest as [|c r IH]; intros e.
  - rewrite prepend_nil. apply aiter_run_same. reflexivity.
  - rewrite filter_nz_cons. destruct (nz_chunk c) eqn:Hnz.
    + assert (Hstep : aiter_next fsys s e (AIFor (SGFrames fs (c :: r))) =
                      (s, e, AIFor (SGFrames fs r), Yield (create_audio_frame e c fs))).
      { cbn [aiter_next synth_next frames_next]. unfold nz_chunk in Hnz.
        rewrite Hnz, Hc. reflexivity. }
      cbn [List.length map Nat.add]. rewrite (aiter_run_yield _ _ _ _ _ _ _ _ _ Hstep).
      rewrite IH, prepend_cons. reflexivity.
    + rewrite <- IH.
      replace (List.length (filter nz_chunk r) + S n)%nat
        with (S (List.length (filter nz_chunk r) + n)) by lia.
      apply aiter_run_same. cbn [aiter_next synth_next frames_next].
      unfold nz_chunk in Hnz. rewrite Hnz. reflexivity.
Qed.

(** The iterator pops the oldest queued text, synthesizes its resolved
    asset and yields all its frames before looking at the queue again. *)
Lemma loop_pop : forall fsys s e t q n,
  closed s = false -> text_queue s = t :: q ->
  let F := synth_frames fsys e (get_audio_filename t) in
  exists e', aiter_run fsys (List.length F + S n) s e AILoop =
             prepend F (aiter_run fsys (S n) (with_queue s q) e' AILoop).
Proof.
  intros fsys s e t q n Hc Hq F.
  assert (Hh : aiter_next fsys s e AILoop =
            (let s' := with_queue s q in
             let '(e', sg', o) := synth_next fsys e (SGStart (get_audio_filename t)) in
             match o with
             | Some f => if closed s' then loop_head fsys q s' e'
                         else (s', e', AIFor sg', Yield f)
             | None => loop_head fsys q s' e'
             end)).
  { cbn [aiter_next]. rewrite Hq. cbn [loop_head].
    rewrite Hc. cbn [nonempty negb]. rewrite orb_true_r. reflexivity. }
  assert (Hloop : forall e', aiter_next fsys (with_queue s q) e' AILoop =
                             loop_head fsys q (with_queue s q) e') by reflexivity.
  unfold F, synth_frames in *.
  cbn [synth_next] in Hh.
  destruct (synth_start fsys e (get_audio_filename t)) as [e1 [fn'|fs rest|]].
  - exists e1. rewrite prepend_nil. apply aiter_run_same. now rewrite Hh, Hloop.
  - pose proof (frames_next_filter rest e1 fs) as Hfn. fold nz_chunk.
    destruct (filter nz_chunk rest) as [|c fr'] eqn:Hfl.
    + exists (set_agent_output e1 false). rewrite prepend_nil.
      apply aiter_run_same. now rewrite Hh, Hfn, Hloop.
    + destruct Hfn as (rest' & Hfn & Hfl').
      exists (set_agent_output e1 false).
      assert (Hstep : aiter_next fsys s e AILoop =
                      (with_queue s q, e1, AIFor (SGFrames fs rest'),
                       Yield (create_audio_frame e1 c fs))).
      { rewrite Hh, Hfn. cbn [closed with_queue]. now rewrite Hc. }
      cbn [map List.length Nat.add]. rewrite (aiter_run_yield _ _ _ _ _ _ _ _ _ Hstep).
      pose proof (run_for_frames fsys rest' (with_queue s q) e1 fs n Hc) as Hr.
      rewrite Hfl' in Hr. rewrite length_map, Hr, prepend_cons. reflexivity.
  - exists e1. rewrite prepend_nil. apply aiter_run_same. now rewrite Hh, Hloop.
Qed.

(** ** Claims on [TTSStream] *)

Example resolver_keyword_branch :
  existsb (fun g => contains g (strip (lower "  Hey there "))) greeting_keywords = true.
Proof. reflexivity. Qed.

Example resolver_fallback_branch :
  existsb (fun g => contains g (strip (lower "Bye"))) greeting_keywords = false.
Proof. reflexivity. Qed.

(** C8: the intent resolver lower-cases and strips its input and returns
    "greetings.wav" both on a keyword match and in the fallback: it is
    the constant function "greetings.wav". *)
Theorem get_audio_filename_constant : forall text,
  get_audio_filename text = "greetings.wav"%string.
Proof.
  intros text. unfold get_audio_filename.
  destruct (existsb _ _); reflexivity.
Qed.

(** C6: on a fresh stream, pushing fragments and calling [end_input]
    enqueues exactly the stripped in-order concatenation when it is not
    blank; when it is blank nothing is enqueued and the first [__anext__]
    ends the iteration without any [synthesize] call (only [aclose] runs,
    which calls [stop]). *)
Theorem push_then_end_input_queue : forall fsys frags e,
  let u := strip (String.concat EmptyString frags) in
  let s := end_input (push_all stream_init frags) in
  (u <> EmptyString -> text_queue s = [u]) /\
  (u = EmptyString ->
   text_queue s = [] /\
   aiter_next fsys s e AILoop =
   ({| text_queue := []; ended := true; closed := true;
       accumulated_text := EmptyString |}, stop e, AIDone, Finished)).
Proof.
  intros fsys frags e u s.
  assert (Hs : s = end_input {| text_queue := []; ended := false; closed := false;
                               accumulated_text := String.concat EmptyString frags |}).
  { unfold s. rewrite push_all_open by reflexivity. reflexivity. }
  split.
  - intros Hu. rewrite Hs. unfold end_input. cbn [accumulated_text text_queue].
    fold u. destruct (String.eqb_spec u EmptyString); [contradiction | reflexivity].
  - intros Hu. rewrite Hs. unfold end_input. cbn [accumulated_text text_queue].
    fold u. rewrite Hu. split; reflexivity.
Qed.

Lemma push_then_end_input_queue_witness :
  strip (String.concat EmptyString ["Hel"; "lo the"; "re"]%string) <> EmptyString /\
  text_queue (end_input (push_all stream_init ["Hel"; "lo the"; "re"]%string)) =
    ["Hello there"%string].
Proof.
  assert (Hu : strip (String.concat EmptyString ["Hel"; "lo the"; "re"]%string)
               <> EmptyString) by (vm_compute; discriminate).
  split; [exact Hu|].
  exact (proj1 (push_then_end_input_queue demo_fsys ["Hel"; "lo the"; "re"]%string
                  engine_init) Hu).
Defined.

(** C4 (counterexample): [end_input] does not enqueue the resolved
    filename: after pushing "hello" the queue holds "hello", not
    [get_audio_filename "hello"] = "greetings.wav". *)
Lemma end_input_enqueues_text_not_filename :
  text_queue (end_input (push_text stream_init "hello")) <>
  [get_audio_filename "hello"].
Proof. vm_compute. discriminate. Qed.

(** C4 (amended): [end_input] sets [ended], keeps the accumulator and
    enqueues the stripped accumulated text when it is not blank; the
    filename is resolved by the iterator when it dequeues that text,
    and [synthesize] is called on [get_audio_filename text]. *)
Theorem end_input_enqueues_stripped_text : forall fsys s e e' sg' f t q,
  let s1 := end_input s in
  ended s1 = true /\
  accumulated_text s1 = accumulated_text s /\
  text_queue s1 =
    text_queue s ++ (if String.eqb (strip (accumulated_text s)) EmptyString
                     then [] else [strip (accumulated_text s)]) /\
  (text_queue s1 = t :: q -> closed s1 = false ->
   synth_next fsys e (SGStart (get_audio_filename t)) = (e', sg', Some f) ->
   aiter_next fsys s1 e AILoop = (with_queue s1 q, e', AIFor sg', Yield f)).
Proof.
  intros fsys s e e' sg' f t q s1.
  split; [reflexivity|]. split; [reflexivity|]. split.
  - unfold s1, end_input; cbn [text_queue].
    destruct (String.eqb _ _); [now rewrite app_nil_r | reflexivity].
  - intros Hq Hc Hsyn. cbn [aiter_next]. rewrite Hq. cbn [loop_head].
    rewrite Hc. cbn [nonempty negb orb andb]. rewrite andb_true_r, orb_true_r.
    rewrite Hsyn. cbn [closed with_queue]. rewrite Hc. reflexivity.
Qed.

Lemma end_input_enqueues_stripped_text_witness :
  let s1 := end_input (push_text stream_init "hello") in
  let e' := decoded_engine engine_init "greetings.wav" demo_wav in
  let f := create_audio_frame e' [1; 2; 3; 4] 2 in
  text_queue s1 = ["hello"%string] /\ closed s1 = false /\
  synth_next demo_fsys engine_init (SGStart (get_audio_filename "hello")) =
    (e', SGFrames 2 [[5; 6]], Some f) /\
  aiter_next demo_fsys s1 engine_init AILoop =
    (with_queue s1 [], e', AIFor (SGFrames 2 [[5; 6]]), Yield f).
Proof.
  intros s1 e' f.
  assert (Hq : text_queue s1 = ["hello"%string]) by reflexivity.
  assert (Hc : closed s1 = false) by reflexivity.
  assert (Hs : synth_next demo_fsys engine_init (SGStart (get_audio_filename "hello")) =
               (e', SGFrames 2 [[5; 6]], Some f)) by (vm_compute; reflexivity).
  split; [exact Hq|]. split; [exact Hc|]. split; [exact Hs|].
  destruct (end_input_enqueues_stripped_text demo_fsys (push_text stream_init "hello")
              engine_init e' (SGFrames 2 [[5; 6]]) f "hello" [])
    as (_ & _ & _ & H).
  exact (H Hq Hc Hs).
Defined.

(** C7: after [aclose], any sequence of later [push_text] (and
    [end_input]) calls leaves the accumulated text unchanged, and
    iterating the stream, from any generator state and for any number
    of [__anext__] calls, yields no frame. *)
Theorem aclose_is_final : forall fsys s e ops g e' n,
  let s1 := fst (aclose s e) in
  let s2 := fold_left apply_op ops s1 in
  accumulated_text s2 = accumulated_text s1 /\
  (let '(fr, _, _, _, _) := aiter_run fsys n s2 e' g in fr = []).
Proof.
  intros fsys s e ops g e' n s1 s2.
  destruct (ops_after_close ops s1 eq_refl eq_refl eq_refl) as (Hc & Ha & _).
  split; [exact Ha|].
  destruct n as [|n]; [reflexivity|]. cbn [aiter_run].
  destruct (aiter_next_closed fsys s2 e' g Hc) as [e'' [H|H]]; rewrite H; reflexivity.
Qed.

(** ** Claims on [CustomTTS.synthesize] and [CustomTTS.stop] *)

(** C3: when the asset file is absent, [wave.open] fails, or decoding
    fails (zero frame rate, undecodable sample data), [synthesize] yields
    no frame, emits no [metrics_collected] event, and ends normally: the
    exception is caught inside the generator, whatever number of
    [__anext__] calls the consumer makes. *)
Theorem synth_failure_is_silent : forall fsys e fn n,
  (fsys fn = None \/ fsys fn = Some WavBad \/
   exists w, fsys fn = Some (WavOk w) /\ (framerate w = 0 \/ samples w = None)) ->
  let '(fr, e', g') := synth_run fsys (S n) e (SGStart fn) in
  fr = [] /\ emitted e' = emitted e /\ g' = SGDone.
Proof.
  intros fsys e fn n Hfail.
  rewrite synth_run_start.
  destruct (synth_start_fail fsys e fn Hfail) as (e1 & H & He & _).
  rewrite H. repeat split. exact He.
Qed.

Lemma synth_failure_is_silent_witness :
  demo_fsys "missing.wav" = None /\
  (let '(fr, e', g') := synth_run demo_fsys 1 engine_init (SGStart "missing.wav") in
   fr = [] /\ emitted e' = emitted engine_init /\ g' = SGDone).
Proof.
  assert (H : demo_fsys "missing.wav" = None) by reflexivity.
  split; [exact H|].
  exact (synth_failure_is_silent demo_fsys engine_init "missing.wav" 0 (or_introl H)).
Defined.

(** C5: when the asset decodes, the first [__anext__] of [synthesize]
    (the one that returns the first frame, if any) emits exactly one
    [metrics_collected] event, with [num_chars = len(filename)],
    [duration_ms = nframes / framerate * 1000] and [cost_usd = 0], and no
    later [__anext__] emits another one. *)
Theorem synth_metrics_once : forall fsys e fn w d n,
  fsys fn = Some (WavOk w) -> framerate w <> 0 -> samples w = Some d ->
  let m := {| num_chars := Z.of_nat (String.length fn);
              duration_ms := (inject_Z (nframes w) / inject_Z (framerate w)
                              * inject_Z 1000)%Q;
              cost_usd := 0%Q |} in
  (let '(e1, _, _) := synth_next fsys e (SGStart fn) in emitted e1 = emitted e ++ [m]) /\
  (let '(_, e', _) := synth_run fsys (S n) e (SGStart fn) in emitted e' = emitted e ++ [m]).
Proof.
  intros fsys e fn w d n Hf Hz Hs m.
  destruct (synth_start_ok_fields fsys e fn w d Hf Hz Hs) as (Hm & _).
  split.
  - pose proof (synth_next_from_start fsys e fn) as H.
    destruct (synth_next fsys e (SGStart fn)) as [[e1 g1] o].
    destruct H as (H & _). rewrite H. exact Hm.
  - pose proof (synth_run_from_start fsys (S n) e fn) as H.
    destruct (synth_run fsys (S n) e (SGStart fn)) as [[fr e'] g'].
    destruct H as [H|(H & _)]; [discriminate H|]. rewrite H. exact Hm.
Qed.

Lemma synth_metrics_once_witness :
  demo_fsys "greetings.wav" = Some (WavOk demo_wav) /\ framerate demo_wav <> 0 /\
  samples demo_wav = Some [1; 2; 3; 4; 5; 6] /\
  (let '(_, e', _) := synth_run demo_fsys 5 engine_init (SGStart "greetings.wav") in
   emitted e' = [{| num_chars := 13;
                    duration_ms := (inject_Z 3 / inject_Z 100 * inject_Z 1000)%Q;
                    cost_usd := 0%Q |}]).
Proof.
  assert (H1 : demo_fsys "greetings.wav" = Some (WavOk demo_wav)) by reflexivity.
  assert (H2 : framerate demo_wav <> 0) by (simpl; lia).
  assert (H3 : samples demo_wav = Some [1; 2; 3; 4; 5; 6]) by reflexivity.
  split; [exact H1|]. split; [exact H2|]. split; [exact H3|].
  exact (proj2 (synth_metrics_once demo_fsys engine_init "greetings.wav" demo_wav
                  [1; 2; 3; 4; 5; 6] 4 H1 H2 H3)).
Defined.

(** C9 (counterexample): [stop] does not cancel an in-flight
    [synthesize]: a generator suspended before a non-empty chunk still
    yields a frame after [stop]. *)
Lemma stop_does_not_cancel_emission :
  ~ (forall fsys e fs rest,
       snd (synth_next fsys (stop e) (SGFrames fs rest)) = None).
Proof.
  intros H. specialize (H (fun _ => None) engine_init 1 [[5]]).
  vm_compute in H. discriminate H.
Qed.

(** C9 (amended): [stop] clears [_agent_output] and closes
    [_current_audio] only when it is set, which [synthesize] never does;
    it is idempotent, leaves open asset files as they are and does not
    change what a [synthesize] generator yields next.  The asset file is
    held only inside the [with] block of [synthesize]: after any number
    of [__anext__] calls, on success and on every error path, no asset
    handle is left open and [_current_audio] is untouched. *)
Theorem stop_idempotent_no_cancel : forall fsys e g fn n,
  stop (stop e) = stop e /\
  asset_handles (stop e) = asset_handles e /\
  snd (synth_next fsys (stop e) g) = snd (synth_next fsys e g) /\
  (let '(_, e', _) := synth_run fsys n e (SGStart fn) in
   asset_handles e' = asset_handles e /\ current_audio e' = current_audio e).
Proof.
  intros fsys e g fn n.
  split; [destruct e as [? ? [|] ? ? ?]; reflexivity|].
  split; [destruct e as [? ? [|] ? ? ?]; reflexivity|].
  split.
  - apply synth_next_agree; destruct e as [? ? [|] ? ? ?]; reflexivity.
  - assert (Hs : asset_handles (fst (synth_start fsys e fn)) = asset_handles e /\
                 current_audio (fst (synth_start fsys e fn)) = current_audio e).
    { destruct (decode_cases fsys fn) as [Hfail|(w & d & Hf & Hz & Hs)].
      - destruct (synth_start_fail fsys e fn Hfail) as (e1 & H & _ & H1 & H2).
        rewrite H. now split.
      - destruct (synth_start_ok_fields fsys e fn w d Hf Hz Hs) as (_ & H1 & H2 & _).
        now split. }
    destruct n as [|n]; [cbn; now split|].
    pose proof (synth_run_from_start fsys (S n) e fn) as H.
    destruct (synth_run fsys (S n) e (SGStart fn)) as [[fr e'] g'].
    destruct H as [H|(_ & H1 & _ & _ & H2)]; [discriminate H|].
    destruct Hs as [Hs1 Hs2]. split; congruence.
Qed.

(** C1 (counterexample): at the standard rate 11025 Hz the code cuts
    [int(11025 * 0.02)] = 220-sample frames, so a mono asset of 441
    frames (D = 0.04 s) yields 3 frames, not [ceil(D / 0.02)] = 2. *)
Lemma frame_count_not_ceil_duration :
  let fsys := fun _ : string =>
    Some (WavOk {| framerate := 11025; nchannels := 1; nframes := 441;
                   samples := Some (repeat 0 441) |}) in
  Z.of_nat (List.length (frames_of (synth_run fsys 1000 engine_init
                                               (SGStart "greetings.wav"))))
  <> spec_frame_count 11025 441.
Proof. vm_compute. discriminate. Qed.

(** C1 (amended): for a decoded asset with frame rate [sr >= 50],
    [nch >= 1] channels and [nframes * nch] samples, [synthesize] uses
    [frame_size = int(sr * 0.02) = sr div 50] (truncation), yields
    [ceil(nframes / frame_size)] frames (which is [ceil(D / 0.02)] only
    when 50 divides [sr]), each of [frame_size] samples per channel and
    exactly [frame_size * nch] samples, and their payloads in order are
    the decoded samples followed by the zero padding of the last frame. *)
Theorem synth_packetizes_frames : forall fsys e fn w d n,
  fsys fn = Some (WavOk w) -> 50 <= framerate w -> 1 <= nchannels w ->
  samples w = Some d -> Z.of_nat (List.length d) = nframes w * nchannels w ->
  (List.length d < n)%nat ->
  let fr := frames_of (synth_run fsys n e (SGStart fn)) in
  let fs := framerate w / 50 in
  Z.of_nat (List.length fr) = (nframes w + fs - 1) / fs /\
  Forall (fun f => samples_per_channel f = fs /\
                   Z.of_nat (List.length (frame_data f)) = fs * nchannels w) fr /\
  List.concat (map frame_data fr) =
    d ++ repeat 0 (Z.to_nat (Z.of_nat (List.length fr) * fs * nchannels w
                             - Z.of_nat (List.length d))).
Proof.
  intros fsys e fn w d n Hf Hsr Hnch Hs Hlen Hn fr fs.
  assert (Hfs : 0 < fs) by (unfold fs; apply Z.div_str_pos; lia).
  assert (Hpos : 0 < frame_size_of (framerate w) * nchannels w)
    by (unfold frame_size_of; fold fs; nia).
  destruct (synth_frames_ok fsys e fn w d Hf ltac:(lia) Hs Hpos) as [Hsf Hstep].
  set (step := Z.to_nat (frame_size_of (framerate w) * nchannels w)) in *.
  assert (HS : Z.of_nat step = fs * nchannels w)
    by (unfold step, frame_size_of; fold fs; lia).
  destruct (py_chunks_spec step (List.length d) d Hstep (le_n _)) as (HF & HC & HL).
  pose proof (py_chunks_length_fuel step (List.length d) d) as Hcl.
  set (cs := py_chunks step (List.length d) d) in *.
  set (e3 := decoded_engine e fn w) in *.
  assert (Hfr : fr = map (fun c => create_audio_frame e3 c fs) cs).
  { unfold fr. rewrite synth_run_prefix, Hsf. apply firstn_all2.
    rewrite length_map. lia. }
  assert (He3 : num_channels e3 = nchannels w) by reflexivity.
  rewrite Hfr. rewrite length_map.
  split; [|split].
  - rewrite HL, Nat2Z.inj_div.
    replace (Z.of_nat (List.length d + step - 1))
      with (Z.of_nat (List.length d) + Z.of_nat step - 1) by lia.
    rewrite Hlen, HS. apply ceil_div_scale; nia.
  - apply Forall_map. eapply Forall_impl; [|exact HF].
    intros c [Hc1 Hc2].
    destruct (create_audio_frame_pad e3 c fs Hfs ltac:(rewrite He3; lia))
      as (Hd & Hspc & _).
    rewrite Hd, Hspc, length_app, repeat_length, He3. split; [reflexivity|]. lia.
  - rewrite map_map.
    rewrite (map_ext_in _ (fun c => c ++ repeat 0 (step - List.length c)));
      [rewrite HC; f_equal; f_equal; nia|].
    intros c Hin. rewrite Forall_forall in HF. destruct (HF c Hin) as [Hc1 Hc2].
    destruct (create_audio_frame_pad e3 c fs Hfs ltac:(rewrite He3; lia))
      as (Hd & _).
    now rewrite Hd, He3.
Qed.

Lemma synth_packetizes_frames_witness :
  let fr := frames_of (synth_run demo_fsys 10 engine_init (SGStart "greetings.wav")) in
  demo_fsys "greetings.wav" = Some (WavOk demo_wav) /\ 50 <= framerate demo_wav /\
  1 <= nchannels demo_wav /\ samples demo_wav = Some [1; 2; 3; 4; 5; 6] /\
  Z.of_nat (List.length [1; 2; 3; 4; 5; 6]) = nframes demo_wav * nchannels demo_wav /\
  (List.length [1; 2; 3; 4; 5; 6] < 10)%nat /\
  Z.of_nat (List.length fr) = (3 + 2 - 1) / 2 /\
  List.concat (map frame_data fr) = [1; 2; 3; 4; 5; 6; 0; 0].
Proof.
  intros fr.
  assert (H1 : demo_fsys "greetings.wav" = Some (WavOk demo_wav)) by reflexivity.
  assert (H2 : 50 <= framerate demo_wav) by (simpl; lia).
  assert (H3 : 1 <= nchannels demo_wav) by (simpl; lia).
  assert (H4 : samples demo_wav = Some [1; 2; 3; 4; 5; 6]) by reflexivity.
  assert (H5 : Z.of_nat (List.length [1; 2; 3; 4; 5; 6]) = nframes demo_wav * nchannels demo_wav)
    by reflexivity.
  assert (H6 : (List.length [1; 2; 3; 4; 5; 6] < 10)%nat) by (simpl; lia).
  destruct (synth_packetizes_frames demo_fsys engine_init "greetings.wav" demo_wav
              [1; 2; 3; 4; 5; 6] 10 H1 H2 H3 H4 H5 H6) as (Hn & _ & Hc).
  split; [exact H1|]. split; [exact H2|]. split; [exact H3|].
  split; [exact H4|]. split; [exact H5|]. split; [exact H6|].
  split; [exact Hn|].
  unfold fr. rewrite Hc. vm_compute. reflexivity.
Defined.

(** C2: every frame yielded by [synthesize], for any asset, any sample
    buffer, rate and channel count read from a WAV header (unsigned
    fields, so non-negative), and after any number of [__anext__] calls,
    has [len(samples) == samples_per_channel * num_channels]. *)
Theorem synth_frames_payload_invariant : forall fsys e fn n,
  (forall w, fsys fn = Some (WavOk w) -> 0 <= framerate w /\ 0 <= nchannels w) ->
  Forall (fun f => Z.of_nat (List.length (frame_data f)) =
                   samples_per_channel f * frame_num_channels f)
         (frames_of (synth_run fsys n e (SGStart fn))).
Proof.
  intros fsys e fn n Hwf.
  rewrite synth_run_prefix. apply Forall_firstn_of.
  destruct (decode_cases fsys fn) as [Hfail|(w & d & Hf & Hz & Hs)].
  - unfold synth_frames.
    destruct (synth_start_fail fsys e fn Hfail) as (e1 & H & _).
    rewrite H. constructor.
  - destruct (Hwf w Hf) as [Hr Hc].
    assert (Hfs0 : 0 <= frame_size_of (framerate w))
      by (unfold frame_size_of; apply Z.div_pos; lia).
    destruct (Z_lt_le_dec 0 (frame_size_of (framerate w) * nchannels w)) as [Hpos|Hle].
    + destruct (synth_frames_ok fsys e fn w d Hf Hz Hs Hpos) as [Hsf Hstep].
      rewrite Hsf.
      set (fs := frame_size_of (framerate w)) in *.
      set (step := Z.to_nat (fs * nchannels w)) in *.
      assert (Hfs : 0 < fs) by nia.
      destruct (py_chunks_spec step (List.length d) d Hstep (le_n _)) as (HF & _).
      apply Forall_map. eapply Forall_impl; [|exact HF].
      intros c [Hc1 Hc2].
      set (e3 := decoded_engine e fn w).
      assert (He3 : num_channels e3 = nchannels w) by reflexivity.
      destruct (create_audio_frame_pad e3 c fs Hfs ltac:(rewrite He3; unfold step in Hc2; lia))
        as (Hd & Hspc & Hnc).
      rewrite Hd, Hspc, Hnc, length_app, repeat_length, He3. unfold step in *. lia.
    + unfold synth_frames. rewrite (synth_start_ok fsys e fn w d Hf Hz Hs). cbn zeta.
      replace (frame_size_of (framerate w) * nchannels w =? 0) with true
        by (symmetry; apply Z.eqb_eq; nia).
      constructor.
Qed.

Lemma synth_frames_payload_invariant_witness :
  (forall w, demo_fsys "greetings.wav" = Some (WavOk w) ->
             0 <= framerate w /\ 0 <= nchannels w) /\
  Forall (fun f => Z.of_nat (List.length (frame_data f)) =
                   samples_per_channel f * frame_num_channels f)
         (frames_of (synth_run demo_fsys 10 engine_init (SGStart "greetings.wav"))).
Proof.
  assert (Hwf : forall w, demo_fsys "greetings.wav" = Some (WavOk w) ->
                          0 <= framerate w /\ 0 <= nchannels w).
  { intros w H. vm_compute in H. injection H as <-. simpl. lia. }
  split; [exact Hwf|].
  exact (synth_frames_payload_invariant demo_fsys engine_init "greetings.wav" 10 Hwf).
Defined.

(** C10: [end_input] is not guarded against a second call: with a
    non-blank accumulated text [u] and no clearing in between, a second
    [end_input] enqueues [u] again, and draining the stream synthesizes
    the resolved asset twice, yielding its frames twice in a row before
    the iteration finishes. *)
Theorem end_input_twice_replays : forall fsys frags e,
  strip (String.concat EmptyString frags) <> EmptyString ->
  let u := strip (String.concat EmptyString frags) in
  let s := end_input (end_input (push_all stream_init frags)) in
  let F := synth_frames fsys e (get_audio_filename u) in
  text_queue s = [u; u] /\
  exists n, let '(fr, r, _, _, _) := aiter_run fsys n s e AILoop in
            fr = F ++ F /\ r = Some Finished.
Proof.
  intros fsys frags e Hu u s F.
  assert (Hs : s = {| text_queue := [u; u]; ended := true; closed := false;
                      accumulated_text := String.concat EmptyString frags |}).
  { unfold s. rewrite push_all_open by reflexivity.
    unfold end_input. cbn [accumulated_text text_queue closed stream_init String.append].
    fold u. destruct (String.eqb_spec u EmptyString); [contradiction|]. reflexivity. }
  split; [now rewrite Hs|].
  exists (List.length F + S (List.length F))%nat.
  destruct (loop_pop fsys s e u [u] (List.length F)
              ltac:(now rewrite Hs) ltac:(now rewrite Hs)) as [e1 H1].
  fold F in H1. rewrite H1.
  set (s1 := with_queue s [u]).
  destruct (loop_pop fsys s1 e1 u [] 0 ltac:(unfold s1; now rewrite Hs) eq_refl) as [e2 H2].
  rewrite (synth_frames_indep fsys e1 e) in H2. fold F in H2.
  replace (S (List.length F)) with (List.length F + S 0)%nat by lia. rewrite H2.
  assert (Hend : aiter_run fsys 1 (with_queue s1 []) e2 AILoop =
                 ([], Some Finished,
                  fst (aclose (with_queue s1 []) e2), snd (aclose (with_queue s1 []) e2),
                  AIDone)).
  { unfold s1. rewrite Hs. reflexivity. }
  rewrite Hend. cbn. rewrite app_nil_r. split; reflexivity.
Qed.

Lemma end_input_twice_replays_witness :
  strip (String.concat EmptyString ["hi"%string]) <> EmptyString /\
  text_queue (end_input (end_input (push_all stream_init ["hi"%string]))) =
    ["hi"%string; "hi"%string] /\
  exists n, let '(fr, r, _, _, _) :=
              aiter_run demo_fsys n (end_input (end_input (push_all stream_init ["hi"%string])))
                        engine_init AILoop in
            List.length fr = 4%nat /\ r = Some Finished.
Proof.
  assert (Hu : strip (String.concat EmptyString ["hi"%string]) <> EmptyString)
    by (vm_compute; discriminate).
  split; [exact Hu|].
  destruct (end_input_twice_replays demo_fsys ["hi"%string] engine_init Hu) as [Hq [n Hn]].
  split; [exact Hq|]. exists n.
  destruct (aiter_run demo_fsys n _ engine_init AILoop) as [[[[fr r] s'] e'] g'].
  destruct Hn as [Hfr Hr]. split; [|exact Hr].
  rewrite Hfr. vm_compute. reflexivity.
Defined.

(** ** Further properties of the code *)

(** *** Helpers *)

Lemma lookup_append_other : forall {D St} (evs : @emitter D St) ev ev' cb,
  ev' <> ev -> events_lookup (events_append evs ev' cb) ev = events_lookup evs ev.
Proof.
  induction evs as [|[k cbs] r IH]; intros ev ev' cb Hne; cbn [events_append events_lookup].
  - destruct (String.eqb_spec ev' ev); [contradiction | reflexivity].
  - destruct (String.eqb_spec k ev') as [->|Hk]; cbn [events_lookup].
    + destruct (String.eqb_spec ev' ev); [contradiction | reflexivity].
    + destruct (String.eqb k ev); [reflexivity | now apply IH].
Qed.

Lemma lookup_append_same : forall {D St} (evs : @emitter D St) ev cb,
  events_lookup (events_append evs ev cb) ev =
  Some (match events_lookup evs ev with None => [cb] | Some cbs => cbs ++ [cb] end).
Proof.
  induction evs as [|[k cbs] r IH]; intros ev cb; cbn [events_append events_lookup].
  - now rewrite String.eqb_refl.
  - destruct (String.eqb_spec k ev) as [->|Hk]; cbn [events_lookup].
    + now rewrite String.eqb_refl.
    + apply String.eqb_neq in Hk. rewrite Hk. apply IH.
Qed.

Lemma run_callbacks_snoc : forall {D St} (cbs : list (@callback D St)) cb data st,
  run_callbacks (cbs ++ [cb]) data st =
  let '(st1, n1) := run_callbacks cbs data st in
  let '(st2, raised) := cb data st1 in (st2, (n1 + if raised then 1 else 0)%nat).
Proof.
  induction cbs as [|c r IH]; intros cb data st; cbn [app run_callbacks].
  - destruct (cb data st) as [st2 []]; reflexivity.
  - destruct (c data st) as [st1 raised]. rewrite IH.
    destruct (run_callbacks r data st1) as [st3 n3].
    destruct (cb data st3) as [st4 []]; f_equal; lia.
Qed.

Lemma stop_idem : forall e, stop (stop e) = stop e.
Proof. intros [? ? [|] ? ? ?]; reflexivity. Qed.

Lemma stop_agent_output : forall e, agent_output (stop e) = false.
Proof. intros [? ? [|] ? ? ?]; reflexivity. Qed.


Lemma create_audio_frame_eq : forall e d fs,
  let fs' := if fs <=? 0 then Z.of_nat (List.length d) else fs in
  let f := create_audio_frame e d fs in
  frame_data f = d ++ repeat 0 (Z.to_nat (fs' * num_channels e - Z.of_nat (List.length d))) /\
  samples_per_channel f = fs' /\ frame_sample_rate f = sample_rate e /\
  frame_num_channels f = num_channels e.
Proof.
  intros e d fs fs' f. unfold f, create_audio_frame. fold fs'.
  destruct (Z.of_nat (List.length d) <? fs' * num_channels e) eqn:Hlt; cbn.
  - repeat split.
  - apply Z.ltb_ge in Hlt.
    replace (Z.to_nat (fs' * num_channels e - Z.of_nat (List.length d))) with O by lia.
    rewrite app_nil_r. repeat split.
Qed.

Lemma synth_start_agent : forall fsys e fn,
  let '(e1, g1) := synth_start fsys e fn in agent_output e1 = suspended g1.
Proof.
  intros fsys e fn. unfold synth_start, synth_body.
  destruct (fsys fn) as [[w|]|]; [|reflexivity|reflexivity].
  cbn [sample_rate set_format set_handles].
  destruct (framerate w =? 0); [reflexivity|].
  destruct (samples w); [|reflexivity].
  cbn [sample_rate num_channels set_agent_output emit_metrics set_handles set_format].
  destruct (_ =? 0); [reflexivity|]. destruct (_ <? 0); reflexivity.
Qed.

Lemma run_frames_agent : forall fsys n e fs rest,
  agent_output e = true ->
  let '(_, e', g') := synth_run fsys n e (SGFrames fs rest) in agent_output e' = suspended g'.
Proof.
  intros fsys n. induction n as [|n IH]; intros e fs rest Ha; [exact Ha|].
  cbn [synth_run synth_next].
  destruct (frames_next_shape rest e fs) as [H|(c & r & H)]; rewrite H; [reflexivity|].
  specialize (IH e fs r Ha).
  destruct (synth_run fsys n e (SGFrames fs r)) as [[fr e'] g']. exact IH.
Qed.

Lemma synth_start_format : forall fsys e fn w,
  fsys fn = Some (WavOk w) ->
  sample_rate (fst (synth_start fsys e fn)) = framerate w /\
  num_channels (fst (synth_start fsys e fn)) = nchannels w.
Proof.
  intros fsys e fn w Hf. unfold synth_start, synth_body. rewrite Hf.
  cbn [sample_rate set_format set_handles].
  destruct (framerate w =? 0); [split; reflexivity|].
  destruct (samples w); [|split; reflexivity].
  cbn [sample_rate num_channels set_agent_output emit_metrics set_handles set_format].
  destruct (_ =? 0); [split; reflexivity|]. destruct (_ <? 0); split; reflexivity.
Qed.

Lemma synth_start_missing : forall fsys e fn,
  fsys fn = None \/ fsys fn = Some WavBad ->
  synth_start fsys e fn = (set_agent_output e false, SGDone).
Proof.
  intros fsys e fn [Hf|Hf]; unfold synth_start, synth_body; now rewrite Hf.
Qed.

Lemma synth_run_format : forall fsys e fn w n,
  fsys fn = Some (WavOk w) ->
  let '(_, e', _) := synth_run fsys (S n) e (SGStart fn) in
  sample_rate e' = framerate w /\ num_channels e' = nchannels w.
Proof.
  intros fsys e fn w n Hf.
  destruct (synth_start_format fsys e fn w Hf) as [H1 H2].
  pose proof (synth_run_from_start fsys (S n) e fn) as H.
  destruct (synth_run fsys (S n) e (SGStart fn)) as [[fr e'] g'].
  destruct H as [H|(_ & _ & H3 & H4 & _)]; [discriminate H|].
  split; congruence.
Qed.

Lemma queue_frames_indep : forall fsys e e' q,
  queue_frames fsys e q = queue_frames fsys e' q.
Proof.
  intros fsys e e' q. unfold queue_frames. f_equal.
  apply map_ext. intros t. apply synth_frames_indep.
Qed.

(** *** [SimpleEventEmitter] *)

(** [emit] of an event no [on] call registered a callback for runs
    nothing, logs nothing and raises nothing. *)
Theorem emit_unregistered_noop : forall {D St} (regs : list (string * @callback D St)) ev data st,
  Forall (fun r => fst r <> ev) regs ->
  emit (register_all regs) ev data st = (st, O).
Proof.
  intros D St regs ev data st Hregs. unfold emit, register_all.
  assert (Hgen : forall evs : @emitter D St, events_lookup evs ev = None ->
            events_lookup (fold_left (fun evs r => fst (on evs (fst r) (Some (snd r))))
                                     regs evs) ev = None).
  { induction Hregs as [|[k cb] r Hk _ IH]; intros evs Hn; [exact Hn|].
    cbn [fold_left]. apply IH. cbn [on decorator fst snd] in *.
    rewrite lookup_append_other by exact Hk. exact Hn. }
  now rewrite Hgen.
Qed.

Lemma emit_unregistered_noop_witness :
  Forall (fun r => fst r <> "metrics_collected"%string)
         [("other"%string, (fun (_ : option nat) (st : nat) => (S st, true)))] /\
  emit (register_all [("other"%string, (fun (_ : option nat) (st : nat) => (S st, true)))])
       "metrics_collected" (Some 7%nat) 0%nat = (0%nat, O).
Proof.
  assert (H : Forall (fun r => fst r <> "metrics_collected"%string)
                [("other"%string, (fun (_ : option nat) (st : nat) => (S st, true)))])
    by (repeat constructor; cbn; discriminate).
  split; [exact H|].
  exact (emit_unregistered_noop _ "metrics_collected" (Some 7%nat) 0%nat H).
Defined.

(** [on(event, cb)] (and equally [on(event)(cb)], which returns [cb]
    unchanged) appends [cb] behind the callbacks already registered for
    [event]: the next [emit(event, data)] runs those first, then [cb] on
    the state they leave, even when some of them raised, and logs one more
    error if [cb] raises.  Registering for another event does not change
    what [emit(event)] does. *)
Theorem emit_after_on : forall {D St} (evs : @emitter D St) ev ev' cb data st,
  emit (fst (on evs ev' (Some cb))) ev data st =
  (if String.eqb ev' ev then
     let '(st1, n1) := emit evs ev data st in
     let '(st2, raised) := cb data st1 in (st2, (n1 + if raised then 1 else 0)%nat)
   else emit evs ev data st) /\
  (match on evs ev' None with
   | (evs', OnDecorator dec) => evs' = evs /\ dec cb evs = (fst (on evs ev' (Some cb)), cb)
   | _ => False
   end).
Proof.
  intros D St evs ev ev' cb data st. split; [|split; reflexivity].
  cbn [on decorator fst]. unfold emit.
  destruct (String.eqb_spec ev' ev) as [->|Hne].
  - rewrite lookup_append_same.
    destruct (events_lookup evs ev) as [cbs|].
    + apply run_callbacks_snoc.
    + cbn [run_callbacks]. destruct (cb data st) as [st2 []]; reflexivity.
  - now rewrite lookup_append_other by exact Hne.
Qed.

(** *** [CustomTTS._create_audio_frame] *)


(** The frame built by [_create_audio_frame] satisfies
    [len(data) == samples_per_channel * num_channels] exactly when the
    input has at most [samples_per_channel * num_channels] samples. *)
Theorem create_audio_frame_invariant_iff : forall e d fs,
  let f := create_audio_frame e d fs in
  Z.of_nat (List.length (frame_data f)) = samples_per_channel f * frame_num_channels f <->
  Z.of_nat (List.length d) <= samples_per_channel f * frame_num_channels f.
Proof.
  intros e d fs f.
  destruct (create_audio_frame_eq e d fs) as (Hd & Hs & _ & Hn).
  fold f in Hd, Hs, Hn. rewrite Hd, Hs, Hn, length_app, repeat_length.
  set (fs' := if fs <=? 0 then Z.of_nat (List.length d) else fs).
  set (need := fs' * num_channels e). split; intros H; lia.
Qed.

(** *** [CustomTTS.synthesize] on the shared engine *)

(** Once the consumer has called [__anext__] on [synthesize],
    [_agent_output] is [True] exactly while the generator is suspended at
    a [yield], and [None] once it has finished or failed. *)
Theorem synth_agent_output_tracks : forall fsys e fn n,
  let '(_, e', g') := synth_run fsys (S n) e (SGStart fn) in
  agent_output e' = suspended g'.
Proof.
  intros fsys e fn n. rewrite synth_run_start.
  pose proof (synth_start_agent fsys e fn) as Ha.
  destruct (synth_start fsys e fn) as [e1 [f|fs rest|]]; try exact Ha.
  now apply run_frames_agent.
Qed.

(** Whenever [synthesize] gets as far as opening the WAV file,
    [get_sample_rate()] afterwards returns that file's frame rate and
    [num_channels] its channel count, also when decoding then fails (a
    zero frame rate, undecodable data); a missing or unreadable file
    leaves both unchanged. *)
Theorem get_sample_rate_after_synthesize : forall fsys e fn n,
  let '(_, e', _) := synth_run fsys (S n) e (SGStart fn) in
  match fsys fn with
  | Some (WavOk w) => get_sample_rate e' = framerate w /\ num_channels e' = nchannels w
  | _ => get_sample_rate e' = get_sample_rate e /\ num_channels e' = num_channels e
  end.
Proof.
  intros fsys e fn n. destruct (fsys fn) as [[w|]|] eqn:Hf.
  - exact (synth_run_format fsys e fn w n Hf).
  - rewrite synth_run_start, (synth_start_missing fsys e fn (or_intror Hf)).
    split; reflexivity.
  - rewrite synth_run_start, (synth_start_missing fsys e fn (or_introl Hf)).
    split; reflexivity.
Qed.



(** A decodable asset whose sample buffer is empty, or whose frame rate
    is below 50 Hz (so [int(rate * 0.02)] is 0 and [range] raises on the
    zero step), still emits its [metrics_collected] event but yields no
    frame; the generator then ends with [_agent_output] cleared. *)
Theorem synth_metrics_without_frames : forall fsys e fn w d n,
  fsys fn = Some (WavOk w) -> 0 < framerate w -> samples w = Some d ->
  d = [] \/ framerate w < 50 ->
  let '(fr, e', g') := synth_run fsys (S n) e (SGStart fn) in
  fr = [] /\ emitted e' = emitted e ++ [metrics_of fn w] /\ g' = SGDone /\
  agent_output e' = false.
Proof.
  intros fsys e fn w d n Hf Hr Hs Hcase.
  destruct (synth_start_ok_fields fsys e fn w d Hf ltac:(lia) Hs) as (Hm & _).
  rewrite synth_run_start.
  pose proof (synth_start_ok fsys e fn w d Hf ltac:(lia) Hs) as Hst. cbn zeta in Hst.
  destruct Hcase as [->|Hlow].
  - destruct (_ =? 0) in Hst; [|destruct (_ <? 0) in Hst];
      rewrite Hst in *; cbn [fst] in Hm; cbn;
      (split; [reflexivity|]); (split; [exact Hm|]); split; reflexivity.
  - replace (frame_size_of (framerate w) * nchannels w =? 0) with true in Hst
      by (symmetry; apply Z.eqb_eq; unfold frame_size_of;
          rewrite Z.div_small by lia; reflexivity).
    rewrite Hst in *. cbn [fst] in Hm. cbn.
    split; [reflexivity|]. split; [exact Hm|]. split; reflexivity.
Qed.

Lemma synth_metrics_without_frames_witness :
  let w := {| framerate := 40; nchannels := 1; nframes := 4; samples := Some [1; 2; 3; 4] |} in
  let fsys := fun fn : string => if String.eqb fn "greetings.wav"%string then Some (WavOk w) else None in
  fsys "greetings.wav"%string = Some (WavOk w) /\ 0 < framerate w /\
  samples w = Some [1; 2; 3; 4] /\ ([1; 2; 3; 4] = [] \/ framerate w < 50) /\
  frames_of (synth_run fsys 10 engine_init (SGStart "greetings.wav"%string)) = [].
Proof.
  intros w fsys.
  assert (H1 : fsys "greetings.wav"%string = Some (WavOk w)) by reflexivity.
  assert (H2 : 0 < framerate w) by (simpl; lia).
  assert (H3 : samples w = Some [1; 2; 3; 4]) by reflexivity.
  assert (H4 : [1; 2; 3; 4] = [] \/ framerate w < 50) by (right; simpl; lia).
  split; [exact H1|]. split; [exact H2|]. split; [exact H3|]. split; [exact H4|].
  pose proof (synth_metrics_without_frames fsys engine_init "greetings.wav"%string w
                [1; 2; 3; 4] 9 H1 H2 H3 H4) as H.
  unfold frames_of. destruct (synth_run fsys 10 engine_init (SGStart "greetings.wav"%string))
    as [[fr e'] g']. exact (proj1 H).
Defined.

(** *** [TTSStream] *)

(** Pushing [a] then [b] leaves the stream exactly as pushing [a ++ b]
    once: how the text is split into fragments does not matter, also
    on an ended or closed stream (where both are ignored). *)
Theorem push_text_compose : forall s a b,
  push_text (push_text s a) b = push_text s (a ++ b)%string.
Proof.
  intros [q [] [] acc] a b; unfold push_text; cbn; try reflexivity.
  now rewrite str_app_assoc.
Qed.

(** [aclose] is idempotent: closing a closed stream again changes neither
    the stream nor the engine. *)
Theorem aclose_idempotent : forall s e,
  aclose (fst (aclose s e)) (snd (aclose s e)) = aclose s e.
Proof. intros s e. unfold aclose. cbn [fst snd]. now rewrite stop_idem. Qed.



(** Draining an ended, open stream plays the queued utterances in FIFO
    order: the iteration yields the frames of each queued text's asset,
    one utterance after the other, then ends; on the way out the
    [finally] clause closes the stream (queue and accumulator cleared)
    and [tts.stop()] clears [_agent_output]. *)
Theorem drain_plays_queue_in_order : forall fsys q s e,
  closed s = false -> ended s = true -> text_queue s = q ->
  let FR := queue_frames fsys e q in
  let '(fr, r, s', e', g') := aiter_run fsys (List.length FR + 1) s e AILoop in
  fr = FR /\ r = Some Finished /\ g' = AIDone /\ closed s' = true /\
  text_queue s' = [] /\ accumulated_text s' = EmptyString /\ agent_output e' = false.
Proof.
  intros fsys q. induction q as [|t q IH]; intros s e Hc He Hq FR.
  - unfold FR, queue_frames. cbn [map List.concat List.length Nat.add].
    cbn [aiter_run aiter_next]. rewrite Hq. cbn [loop_head].
    rewrite He, Hc. cbn [negb orb andb nonempty with_queue closed].
    rewrite Hc. cbn. repeat split; apply stop_agent_output.
  - set (F := synth_frames fsys e (get_audio_filename t)).
    assert (HFR : FR = F ++ queue_frames fsys e q) by reflexivity.
    set (FR' := queue_frames fsys e q) in HFR.
    destruct (loop_pop fsys s e t q (List.length FR') Hc Hq) as [e1 H1].
    fold F in H1.
    rewrite HFR, length_app.
    replace (List.length F + List.length FR' + 1)%nat
      with (List.length F + S (List.length FR'))%nat by lia.
    rewrite H1.
    specialize (IH (with_queue s q) e1 Hc He eq_refl). cbv zeta in IH.
    rewrite (queue_frames_indep fsys e1 e) in IH. fold FR' in IH.
    rewrite Nat.add_1_r in IH.
    destruct (aiter_run fsys (S (List.length FR')) (with_queue s q) e1 AILoop)
      as [[[[fr r] s'] e'] g'].
    cbn [prepend]. destruct IH as (-> & IH). split; [reflexivity|exact IH].
Qed.

Lemma drain_plays_queue_in_order_witness :
  let s := end_input (end_input (push_text stream_init "hey")) in
  closed s = false /\ ended s = true /\ text_queue s = ["hey"%string; "hey"%string] /\
  (let '(fr, r, s', _, _) :=
     aiter_run demo_fsys (List.length (queue_frames demo_fsys engine_init
                                         ["hey"%string; "hey"%string]) + 1)
               s engine_init AILoop in
   List.length fr = 4%nat /\ r = Some Finished /\ closed s' = true).
Proof.
  intros s.
  assert (H1 : closed s = false) by reflexivity.
  assert (H2 : ended s = true) by reflexivity.
  assert (H3 : text_queue s = ["hey"%string; "hey"%string]) by reflexivity.
  split; [exact H1|]. split; [exact H2|]. split; [exact H3|].
  pose proof (drain_plays_queue_in_order demo_fsys _ s engine_init H1 H2 H3) as H.
  cbv zeta in H.
  destruct (aiter_run demo_fsys _ s engine_init AILoop) as [[[[fr r] s'] e'] g'].
  destruct H as (Hfr & Hr & _ & Hc & _).
  split; [|split; [exact Hr|exact Hc]].
  rewrite Hfr. vm_compute. reflexivity.
Defined.

End TTS.
